(** * MQTT binary sensor: subscription, state derivation and auto-off timer

    A shallow embedding of
    [homeassistant/components/binary_sensor/mqtt.py] (class
    [MqttBinarySensor]) together with the three collaborators the entity
    talks to: the logger, the timer service of the event loop and the MQTT
    subscription helper.  The entity's attributes form a record, the
    callbacks are computations in a state monad over the pair
    (entity, event-loop state), and the entry points are the constructors
    of [Event]. *)

From stdpp Require Import gmap strings list fin_maps sorting.
From Stdlib Require Import ZArith Lia.

Open Scope string_scope.
Open Scope Z_scope.

(** ** Values shared with the host *)

(** The running [HomeAssistant] instance; the entity only stores and passes
    on a reference to it. *)
Inductive HomeAssistantType := HomeAssistant.

(** A value template.  The template language is opaque to the sensor: the
    entity only calls [async_render_with_possible_json_value], which maps
    a payload to a payload, and reads or writes the [hass] attribute. *)
Record Template := {
  tpl_hass : option HomeAssistantType;
  async_render_with_possible_json_value : string -> string
}.

(** Line 31 to 36: module constants. *)
Definition DEFAULT_NAME : string := "MQTT Binary sensor".
Definition DEFAULT_PAYLOAD_OFF : string := "OFF".
Definition DEFAULT_PAYLOAD_ON : string := "ON".
Definition DEFAULT_FORCE_UPDATE : bool := false.

(** A configuration as [PLATFORM_SCHEMA] returns it (lines 40 to 52): the
    keys with a default and the required [state_topic] are always present,
    the others are optional, and [config.get] yields [None] for them when
    absent.  [off_delay] is coerced to an integer of range [min=0]. *)
Record ConfigType := {
  CONF_NAME : string;
  CONF_STATE_TOPIC : string;
  CONF_DEVICE_CLASS : option string;
  CONF_QOS : Z;
  CONF_FORCE_UPDATE : bool;
  CONF_OFF_DELAY : option N;
  CONF_PAYLOAD_ON : string;
  CONF_PAYLOAD_OFF : string;
  CONF_VALUE_TEMPLATE : option Template;
  CONF_UNIQUE_ID : option string
}.

(** ** The collaborators *)

Definition TimerId := nat.
Definition SubHandle := nat.

(** One entry of the dictionary handed to the subscription helper
    (line 191 to 193).  The [msg_callback] entry is always the entity's
    own [state_message_received] and is left implicit. *)
Record TopicSpec := {
  ts_topic : option string;
  ts_qos : option Z
}.

(** A record of the module logger: the format string and its arguments,
    as [_LOGGER.warning(fmt, *args)] receives them. *)
Record LogRecord := {
  log_level : string;
  log_msg : string;
  log_args : list (option string)
}.

(** The part of the host that the entity acts on.  Time is counted in
    milliseconds. *)
Record HassState := {
  now : Z;
  timers : gmap nat Z;
  next_timer : TimerId;
  subscriptions : gmap nat (gmap string TopicSpec);
  next_sub : SubHandle;
  log : list LogRecord;
  ha_state_updates : nat
}.

(** ** The entity *)

(** Lines 93 to 107: the attributes of [MqttBinarySensor].  Every attribute
    is [None] until [_setup_from_config] or a callback assigns it.
    [_delay_listener] holds the cancel handle that [async_call_later]
    returned, [_sub_state] the state of the subscription helper. *)
Record MqttBinarySensor := {
  _config : ConfigType;
  _state : option bool;
  _sub_state : option SubHandle;
  _delay_listener : option TimerId;
  _name : option string;
  _state_topic : option string;
  _device_class : option string;
  _payload_on : option string;
  _payload_off : option string;
  _qos : option Z;
  _force_update : option bool;
  _off_delay : option N;
  _template : option Template;
  _unique_id : option string;
  hass : option HomeAssistantType
}.

Record System := {
  self : MqttBinarySensor;
  loop : HassState
}.

(** ** A state monad over [System] *)

Definition M (A : Type) : Type := System -> A * System.

#[global] Instance M_ret : MRet M := fun A (x : A) s => (x, s).
#[global] Instance M_bind : MBind M :=
  fun A B (k : A -> M B) (m : M A) s => let (x, s') := m s in k x s'.
Definition exec {A} (m : M A) (s : System) : System := snd (m s).

Definition get_self : M MqttBinarySensor := fun s => (self s, s).
Definition put_self (a : MqttBinarySensor) : M unit :=
  fun s => (tt, {| self := a; loop := loop s |}).
Definition get_loop : M HassState := fun s => (loop s, s).
Definition put_loop (h : HassState) : M unit :=
  fun s => (tt, {| self := self s; loop := h |}).

(** Attribute assignments [self._state = v], [self._delay_listener = v]
    and [self._sub_state = v]. *)
Definition with_state (v : option bool) (a : MqttBinarySensor) :=
  {| _config := _config a; _state := v; _sub_state := _sub_state a;
     _delay_listener := _delay_listener a; _name := _name a;
     _state_topic := _state_topic a; _device_class := _device_class a;
     _payload_on := _payload_on a; _payload_off := _payload_off a;
     _qos := _qos a; _force_update := _force_update a;
     _off_delay := _off_delay a; _template := _template a;
     _unique_id := _unique_id a; hass := hass a |}.

Definition with_delay_listener (v : option TimerId) (a : MqttBinarySensor) :=
  {| _config := _config a; _state := _state a; _sub_state := _sub_state a;
     _delay_listener := v; _name := _name a;
     _state_topic := _state_topic a; _device_class := _device_class a;
     _payload_on := _payload_on a; _payload_off := _payload_off a;
     _qos := _qos a; _force_update := _force_update a;
     _off_delay := _off_delay a; _template := _template a;
     _unique_id := _unique_id a; hass := hass a |}.

Definition with_sub_state (v : option SubHandle) (a : MqttBinarySensor) :=
  {| _config := _config a; _state := _state a; _sub_state := v;
     _delay_listener := _delay_listener a; _name := _name a;
     _state_topic := _state_topic a; _device_class := _device_class a;
     _payload_on := _payload_on a; _payload_off := _payload_off a;
     _qos := _qos a; _force_update := _force_update a;
     _off_delay := _off_delay a; _template := _template a;
     _unique_id := _unique_id a; hass := hass a |}.

Definition set_state (v : option bool) : M unit :=
  a ← get_self; put_self (with_state v a).
Definition set_delay_listener (v : option TimerId) : M unit :=
  a ← get_self; put_self (with_delay_listener v a).
Definition set_sub_state (v : option SubHandle) : M unit :=
  a ← get_self; put_self (with_sub_state v a).

(** Updates of the host state. *)
Definition with_timers (tm : gmap nat Z) (nt : TimerId) (h : HassState) :=
  {| now := now h; timers := tm; next_timer := nt;
     subscriptions := subscriptions h; next_sub := next_sub h;
     log := log h; ha_state_updates := ha_state_updates h |}.

Definition with_subscriptions (sb : gmap nat (gmap string TopicSpec))
    (ns : SubHandle) (h : HassState) :=
  {| now := now h; timers := timers h; next_timer := next_timer h;
     subscriptions := sb; next_sub := ns;
     log := log h; ha_state_updates := ha_state_updates h |}.

Definition with_now (t : Z) (h : HassState) :=
  {| now := t; timers := timers h; next_timer := next_timer h;
     subscriptions := subscriptions h; next_sub := next_sub h;
     log := log h; ha_state_updates := ha_state_updates h |}.

Definition with_log (l : list LogRecord) (h : HassState) :=
  {| now := now h; timers := timers h; next_timer := next_timer h;
     subscriptions := subscriptions h; next_sub := next_sub h;
     log := l; ha_state_updates := ha_state_updates h |}.

Definition with_ha_state_updates (n : nat) (h : HassState) :=
  {| now := now h; timers := timers h; next_timer := next_timer h;
     subscriptions := subscriptions h; next_sub := next_sub h;
     log := log h; ha_state_updates := n |}.

(** [_LOGGER.warning(msg, *args)]: appends one record. *)
Definition _LOGGER_warning (msg : string) (args : list (option string))
    : M unit :=
  h ← get_loop;
  put_loop (with_log
    (log h ++ [{| log_level := "WARNING"; log_msg := msg;
                  log_args := args |}]) h).

(** Modelled from the spec: the host entity framework's scheduled state
    refresh ([Entity.async_schedule_update_ha_state], not in this file).
    The host is notified that the displayed state must be refreshed; the
    notifications are counted. *)
Definition async_schedule_update_ha_state : M unit :=
  h ← get_loop;
  put_loop (with_ha_state_updates (S (ha_state_updates h)) h).

(** Modelled from the spec: the timer collaborator
    ([homeassistant.helpers.event.async_call_later], not in this file):
    "schedule a one-shot callback after N seconds; cancelable".  The call
    registers a timer due [delay] seconds from now and returns the handle
    that cancels it.  The callback is always the entity's
    [off_delay_listener]. *)
Definition async_call_later (delay : N) : M TimerId :=
  h ← get_loop;
  let id := next_timer h in
  put_loop (with_timers (<[id := now h + Z.of_N delay * 1000]> (timers h))
                        (S id) h);;
  mret id.

(** Modelled from the spec: calling the handle that [async_call_later]
    returned cancels the timer; a timer that is no longer registered is
    left alone. *)
Definition call_cancel (id : TimerId) : M unit :=
  h ← get_loop;
  put_loop (with_timers (delete id (timers h)) (next_timer h) h).

(** Modelled from the spec: the transport collaborator's subscription
    helper ([homeassistant.components.mqtt.subscription], not in this
    file): "subscribe(topicSpecMap) -> handle", and a call with the
    previous handle "(re)establishes the topic subscription, replacing any
    prior one": the subscriptions under the old handle are torn down, the
    requested ones are established under a new handle, which is
    returned. *)
Definition async_subscribe_topics (sub_state : option SubHandle)
    (topics : gmap string TopicSpec) : M (option SubHandle) :=
  h ← get_loop;
  let live := match sub_state with
              | Some old => delete old (subscriptions h)
              | None => subscriptions h
              end in
  let new := next_sub h in
  put_loop (with_subscriptions (<[new := topics]> live) (S new) h);;
  mret (Some new).

(** Modelled from the spec: "unsubscribe(handle)", a "single unsubscribe
    call covering however many topic filters were registered". *)
Definition async_unsubscribe_topics (sub_state : option SubHandle)
    : M (option SubHandle) :=
  h ← get_loop;
  let live := match sub_state with
              | Some old => delete old (subscriptions h)
              | None => subscriptions h
              end in
  put_loop (with_subscriptions live (next_sub h) h);;
  mret None.

(** ** The methods of [MqttBinarySensor] *)

(** Lines 137 to 152, as a function of the entity. *)
Definition configured (config : ConfigType) (a : MqttBinarySensor)
    : MqttBinarySensor :=
  let value_template :=
    match CONF_VALUE_TEMPLATE config with
    | Some t =>
        match tpl_hass t with
        | None =>
            Some {| tpl_hass := hass a;
                    async_render_with_possible_json_value :=
                      async_render_with_possible_json_value t |}
        | Some _ => Some t
        end
    | None => None
    end in
  {| _config := _config a;
     _state := _state a;
     _sub_state := _sub_state a;
     _delay_listener := _delay_listener a;
     _name := Some (CONF_NAME config);
     _state_topic := Some (CONF_STATE_TOPIC config);
     _device_class := CONF_DEVICE_CLASS config;
     _payload_on := Some (CONF_PAYLOAD_ON config);
     _payload_off := Some (CONF_PAYLOAD_OFF config);
     _qos := Some (CONF_QOS config);
     _force_update := Some (CONF_FORCE_UPDATE config);
     _off_delay := CONF_OFF_DELAY config;
     _template := value_template;
     _unique_id := CONF_UNIQUE_ID config;
     hass := hass a |}.

Definition _setup_from_config (config : ConfigType) : M unit :=
  a ← get_self;
  put_self (configured config a).

(** Lines 91 to 110: the constructor.  The mix-in constructors (lines 112
    to 121) initialise availability, discovery and device information,
    which are kept by the mix-ins. *)
Definition __init__ (config : ConfigType) (discovery_hash : option string)
    : MqttBinarySensor :=
  configured config
    {| _config := config; _state := None; _sub_state := None;
       _delay_listener := None; _name := None; _state_topic := None;
       _device_class := None; _payload_on := None; _payload_off := None;
       _qos := None; _force_update := None; _off_delay := None;
       _template := None; _unique_id := None; hass := None |}.

(** Lines 156 to 161. *)
Definition off_delay_listener (now : Z) : M unit :=
  set_delay_listener None;;
  set_state (Some false);;
  async_schedule_update_ha_state.

(** [payload == self._payload_on]: a string never equals [None]. *)
Definition py_eq (payload : string) (token : option string) : bool :=
  match token with
  | Some t => String.eqb payload t
  | None => false
  end.

(** Lines 166 to 168: the payload that is compared. *)
Definition effective_payload (a : MqttBinarySensor) (payload : string)
    : string :=
  match _template a with
  | Some t => async_render_with_possible_json_value t payload
  | None => payload
  end.

(** Python truth value of [self._state]. *)
Definition truthy (v : option bool) : bool :=
  match v with Some b => b | None => false end.

(** Lines 163 to 187.  The [return] of the third branch ends the callback;
    the two matching branches continue with the timer and the refresh.
    The test of line 183, [self._state and self._off_delay is not None],
    is written as a match on [_off_delay] around the truth value of
    [_state], which also yields the delay handed to the timer service. *)
Definition state_message_received (_topic payload : string) (_qos : Z)
    : M unit :=
  a ← get_self;
  let payload := effective_payload a payload in
  matched ←
    (if py_eq payload (_payload_on a) then
       set_state (Some true);; mret true
     else if py_eq payload (_payload_off a) then
       set_state (Some false);; mret true
     else
       _LOGGER_warning
         "No matching payload found for entity: %s with state_topic: %s"
         [_name a; _state_topic a];;
       mret false);
  if matched : bool then
    a ← get_self;
    match _delay_listener a with
    | Some cancel => call_cancel cancel;; set_delay_listener None
    | None => mret tt
    end;;
    a ← get_self;
    match _off_delay a with
    | Some delay =>
        if truthy (_state a) then
          listener ← async_call_later delay;
          set_delay_listener (Some listener)
        else mret tt
    | None => mret tt
    end;;
    async_schedule_update_ha_state
  else mret tt.

(** The dictionary of lines 191 to 193. *)
Definition state_topic_spec (a : MqttBinarySensor)
    : gmap string TopicSpec :=
  {[ "state_topic" := {| ts_topic := _state_topic a; ts_qos := _qos a |} ]}.

(** Lines 154 to 193: the two callbacks are (re)bound to [self] and the
    state topic is (re)subscribed. *)
Definition _subscribe_topics : M unit :=
  a ← get_self;
  sub_state ← async_subscribe_topics (_sub_state a) (state_topic_spec a);
  set_sub_state sub_state.

(** Lines 123 to 127, without the two mix-in calls. *)
Definition async_added_to_hass : M unit := _subscribe_topics.

(** Lines 129 to 135, from the validated configuration on; the
    availability mix-in's update concerns the mix-in only. *)
Definition discovery_update (config : ConfigType) : M unit :=
  _setup_from_config config;;
  _subscribe_topics;;
  async_schedule_update_ha_state.

(** Lines 195 to 198: the value that the helper returns is dropped, so
    [_sub_state] keeps the old handle. *)
Definition async_will_remove_from_hass : M unit :=
  a ← get_self;
  async_unsubscribe_topics (_sub_state a);;
  mret tt.

(** Lines 200 to 228: the read-only properties. *)
Definition should_poll (a : MqttBinarySensor) : bool := false.
Definition name (a : MqttBinarySensor) := _name a.
Definition is_on (a : MqttBinarySensor) := _state a.
Definition device_class (a : MqttBinarySensor) := _device_class a.
Definition force_update (a : MqttBinarySensor) := _force_update a.
Definition unique_id (a : MqttBinarySensor) := _unique_id a.

(** ** The event loop *)

(** Modelled from the spec: the timer collaborator invoking a one-shot
    callback.  A timer fires only while it is registered (it was not
    canceled) and once it is due; firing unregisters it and calls
    [off_delay_listener]. *)
Definition fire_timer (id : TimerId) : M unit :=
  h ← get_loop;
  match timers h !! id with
  | Some due =>
      if due <=? now h then
        put_loop (with_timers (delete id (timers h)) (next_timer h) h);;
        off_delay_listener due
      else mret tt
  | None => mret tt
  end.

(** Time passes without a callback being run; the clock never goes back. *)
Definition time_passes (t : Z) : M unit :=
  h ← get_loop;
  put_loop (with_now (Z.max (now h) t) h).

Definition due_le (p q : TimerId * Z) : Prop := p.2 ≤ q.2.

#[global] Instance due_le_dec : RelDecision due_le.
Proof. intros p q. unfold due_le. apply _. Defined.

(** The timers that are due up to [t], earliest first. *)
Definition due_timers (t : Z) (h : HassState) : list (TimerId * Z) :=
  merge_sort due_le (filter (fun p => p.2 ≤ t) (map_to_list (timers h))).

Fixpoint fire_all (l : list (TimerId * Z)) : M unit :=
  match l with
  | [] => mret tt
  | (id, due) :: l' => time_passes due;; fire_timer id;; fire_all l'
  end.

(** Modelled from the spec: the loop runs until time [t] with no message
    arriving; each timer that comes due is fired at its due time. *)
Definition advance_to (t : Z) : M unit :=
  h ← get_loop;
  fire_all (due_timers t h);;
  time_passes t.

(** The entry points of the entity, and the passing of time. *)
Inductive Event :=
| OnMessage (topic payload : string) (qos : Z)
| OnOffDelayExpired (id : TimerId)
| Configure (config : ConfigType)
| Activate
| Deactivate
| DiscoveryUpdate (config : ConfigType)
| TimePasses (t : Z).

Definition handle (e : Event) : M unit :=
  match e with
  | OnMessage topic payload qos => state_message_received topic payload qos
  | OnOffDelayExpired id => fire_timer id
  | Configure config => _setup_from_config config
  | Activate => async_added_to_hass
  | Deactivate => async_will_remove_from_hass
  | DiscoveryUpdate config => discovery_update config
  | TimePasses t => time_passes t
  end.

(** A host that has just constructed the entity at time [t0]: nothing is
    scheduled, subscribed or logged on the entity's behalf. *)
Definition boot (config : ConfigType) (discovery_hash : option string)
    (t0 : Z) : System :=
  {| self := __init__ config discovery_hash;
     loop := {| now := t0; timers := ∅; next_timer := 0%nat;
                subscriptions := ∅; next_sub := 0%nat;
                log := []; ha_state_updates := 0%nat |} |}.

Inductive reachable : System -> Prop :=
| reachable_boot config discovery_hash t0 :
    reachable (boot config discovery_hash t0)
| reachable_step s e :
    reachable s -> reachable (exec (handle e) s).

(** The message [e] carries a payload that matches one of the tokens. *)
Definition matching_message (s : System) (e : Event) : Prop :=
  match e with
  | OnMessage _ payload _ =>
      let p := effective_payload (self s) payload in
      _payload_on (self s) = Some p \/ _payload_off (self s) = Some p
  | _ => False
  end.

(** A default configuration for the examples. *)
Definition example_config (payload_on payload_off : string)
    (off_delay : option N) : ConfigType :=
  {| CONF_NAME := DEFAULT_NAME; CONF_STATE_TOPIC := "test-topic";
     CONF_DEVICE_CLASS := None; CONF_QOS := 0;
     CONF_FORCE_UPDATE := DEFAULT_FORCE_UPDATE;
     CONF_OFF_DELAY := off_delay;
     CONF_PAYLOAD_ON := payload_on; CONF_PAYLOAD_OFF := payload_off;
     CONF_VALUE_TEMPLATE := None; CONF_UNIQUE_ID := None |}.

Definition run_events (es : list Event) (s : System) : System :=
  foldl (fun s e => exec (handle e) s) s es.

(** The warning of lines 174 to 176 for the entity [a]. *)
Definition unmatched_warning (a : MqttBinarySensor) : LogRecord :=
  {| log_level := "WARNING";
     log_msg :=
       "No matching payload found for entity: %s with state_topic: %s";
     log_args := [_name a; _state_topic a] |}.

(** ** Invariants and properties of single steps *)

(** The timers registered for the entity are exactly the one that
    [_delay_listener] designates, that handle was issued by the timer
    service, and a pending timer goes with the state on. *)
Definition timer_inv (s : System) : Prop :=
  match _delay_listener (self s) with
  | None => timers (loop s) = ∅
  | Some id =>
      (exists due, timers (loop s) = {[ id := due ]}) /\
      (id < next_timer (loop s))%nat /\
      _state (self s) = Some true
  end.

(** Every live subscription is held under the handle in [_sub_state]. *)
Definition sub_inv (s : System) : Prop :=
  forall h, is_Some (subscriptions (loop s) !! h) ->
            _sub_state (self s) = Some h.

(** The effect of one message as a three-way case distinction in which the
    cases for the two tokens are read independently of each other. *)
Definition message_effect_independent (s : System)
    (topic payload : string) (qos : Z) : Prop :=
  let p := effective_payload (self s) payload in
  let s' := exec (state_message_received topic payload qos) s in
  (_payload_on (self s) = Some p -> _state (self s') = Some true) /\
  (_payload_off (self s) = Some p -> _state (self s') = Some false) /\
  (_payload_on (self s) <> Some p -> _payload_off (self s) <> Some p ->
   _state (self s') = _state (self s) /\
   log (loop s') = (log (loop s) ++ [unmatched_warning (self s)])%list).

(** Only a matching message changes [_state]. *)
Definition only_matching_message_changes_state (s : System) (e : Event)
    : Prop :=
  ~ matching_message s e ->
  _state (self (exec (handle e) s)) = _state (self s).

(** [n] successive calls of [m]. *)
Fixpoint repeat_call (n : nat) (m : M unit) : M unit :=
  match n with
  | O => mret tt
  | S n' => m;; repeat_call n' m
  end.

(** The closed form of lines 179 to 187 after [_state] was set to [b]:
    the pending timer is unregistered, a new one is registered when [b]
    is true and a delay is configured, and one refresh is scheduled. *)
Definition canceled (s : System) : gmap nat Z :=
  match _delay_listener (self s) with
  | Some id => delete id (timers (loop s))
  | None => timers (loop s)
  end.

Definition rescheduled (b : bool) (s : System) : option (TimerId * Z) :=
  match _off_delay (self s) with
  | Some delay =>
      if b then Some (next_timer (loop s),
                      now (loop s) + Z.of_N delay * 1000)
      else None
  | None => None
  end.

Definition matched_effect (b : bool) (s : System) : System :=
  match rescheduled b s with
  | Some (id, due) =>
      {| self := with_delay_listener (Some id)
                   (with_state (Some b) (self s));
         loop := with_ha_state_updates (S (ha_state_updates (loop s)))
                   (with_timers (<[id := due]> (canceled s)) (S id)
                      (loop s)) |}
  | None =>
      {| self := with_delay_listener None (with_state (Some b) (self s));
         loop := with_ha_state_updates (S (ha_state_updates (loop s)))
                   (with_timers (canceled s) (next_timer (loop s))
                      (loop s)) |}
  end.

(** Concrete systems for the examples: both tokens equal; an off delay of
    five seconds, after one on message and five seconds of waiting; and
    the default tokens without a delay. *)
Definition same_token_system : System :=
  boot (example_config "ON" "ON" None) None 0.

Definition pending_system : System :=
  run_events [OnMessage "test-topic" "ON" 0; TimePasses 5000]
    (boot (example_config "ON" "OFF" (Some 5%N)) None 0).

Definition plain_system : System :=
  boot (example_config "ON" "OFF" None) None 0.

Definition delay_system : System :=
  boot (example_config "ON" "OFF" (Some 5%N)) None 0.

(** The attributes that the message callback reads but never writes. *)
Definition settings (a : MqttBinarySensor) :=
  (_payload_on a, _payload_off a, _off_delay a, _template a).

(** ** Platform setup *)

(** [value_template.hass = hass] on the template held by the
    configuration (lines 77 to 79); the configuration keeps the template
    object, so it sees the assignment. *)
Definition bind_value_template (h : HomeAssistantType) (config : ConfigType)
    : ConfigType :=
  {| CONF_NAME := CONF_NAME config;
     CONF_STATE_TOPIC := CONF_STATE_TOPIC config;
     CONF_DEVICE_CLASS := CONF_DEVICE_CLASS config;
     CONF_QOS := CONF_QOS config;
     CONF_FORCE_UPDATE := CONF_FORCE_UPDATE config;
     CONF_OFF_DELAY := CONF_OFF_DELAY config;
     CONF_PAYLOAD_ON := CONF_PAYLOAD_ON config;
     CONF_PAYLOAD_OFF := CONF_PAYLOAD_OFF config;
     CONF_VALUE_TEMPLATE :=
       match CONF_VALUE_TEMPLATE config with
       | Some t =>
           Some {| tpl_hass := Some h;
                   async_render_with_possible_json_value :=
                     async_render_with_possible_json_value t |}
       | None => None
       end;
     CONF_UNIQUE_ID := CONF_UNIQUE_ID config |}.

(** Lines 74 to 84: the entities handed to [async_add_entities]. *)
Definition _async_setup_entity (h : HomeAssistantType) (config : ConfigType)
    (discovery_hash : option string) : list MqttBinarySensor :=
  [__init__ (bind_value_template h config) discovery_hash].

(** Lines 55 to 58: setup through [configuration.yaml], without a
    discovery hash. *)
Definition async_setup_platform (h : HomeAssistantType)
    (config : ConfigType) : list MqttBinarySensor :=
  _async_setup_entity h config None.

(** ** Runs of events *)

(** No event of the run [es], started in [s], is a message whose payload
    matches a token of the configuration in force when it arrives. *)
Fixpoint no_match (s : System) (es : list Event) : Prop :=
  match es with
  | [] => True
  | e :: es' => ~ matching_message s e /\ no_match (exec (handle e) s) es'
  end.

(** A log record that names an entity and a state topic. *)
Definition names_entity_and_topic (r : LogRecord) : Prop :=
  log_level r = "WARNING" /\
  exists entity topic, log_args r = [Some entity; Some topic].

(** The configuration attributes with a default or a required key are
    set, and every record logged so far names its entity and topic. *)
Definition configured_inv (s : System) : Prop :=
  is_Some (_name (self s)) /\
  is_Some (_state_topic (self s)) /\
  is_Some (_payload_on (self s)) /\
  is_Some (_payload_off (self s)) /\
  is_Some (_qos (self s)) /\
  is_Some (_force_update (self s)) /\
  Forall names_entity_and_topic (log (loop s)).

(** A system that is on, without an off delay. *)
Definition on_system : System :=
  run_events [OnMessage "test-topic" "ON" 0] plain_system.

(** A second configuration for the examples. *)
Definition other_config : ConfigType :=
  {| CONF_NAME := "Door"; CONF_STATE_TOPIC := "door/state";
     CONF_DEVICE_CLASS := Some "door"; CONF_QOS := 1;
     CONF_FORCE_UPDATE := true; CONF_OFF_DELAY := None;
     CONF_PAYLOAD_ON := "open"; CONF_PAYLOAD_OFF := "closed";
     CONF_VALUE_TEMPLATE := None; CONF_UNIQUE_ID := Some "door-1" |}.

(** The event is a message whose payload equals neither token. *)
Definition unmatched_b (s : System) (e : Event) : bool :=
  match e with
  | OnMessage _ payload _ =>
      let p := effective_payload (self s) payload in
      negb (py_eq p (_payload_on (self s))) &&
      negb (py_eq p (_payload_off (self s)))
  | _ => false
  end.

(** The number of such messages in the run [es] started in [s], each
    judged by the configuration in force when it arrives. *)
Fixpoint count_unmatched (s : System) (es : list Event) : nat :=
  match es with
  | [] => 0
  | e :: es' =>
      ((if unmatched_b s e then 1 else 0)
       + count_unmatched (exec (handle e) s) es')%nat
  end.

(** A template that renders every payload to the same text, and a
    reachable system that holds a pending timer while no payload can
    match a token any more. *)
Definition constant_template : Template :=
  {| tpl_hass := Some HomeAssistant;
     async_render_with_possible_json_value := fun _ => "zzz" |}.

Definition never_matching_system : System :=
  run_events
    [OnMessage "test-topic" "ON" 0;
     Configure
       {| CONF_NAME := DEFAULT_NAME; CONF_STATE_TOPIC := "test-topic";
          CONF_DEVICE_CLASS := None; CONF_QOS := 0;
          CONF_FORCE_UPDATE := DEFAULT_FORCE_UPDATE;
          CONF_OFF_DELAY := Some 5%N;
          CONF_PAYLOAD_ON := "ON"; CONF_PAYLOAD_OFF := "OFF";
          CONF_VALUE_TEMPLATE := Some constant_template;
          CONF_UNIQUE_ID := None |}]
    delay_system.

(** ** Proofs *)

Ltac run :=
  unfold exec, state_message_received, off_delay_listener, fire_timer,
    time_passes, _setup_from_config, _subscribe_topics, discovery_update,
    async_added_to_hass, async_will_remove_from_hass,
    async_subscribe_topics, async_unsubscribe_topics, async_call_later,
    call_cancel, async_schedule_update_ha_state, _LOGGER_warning,
    set_state, set_delay_listener, set_sub_state,
    get_self, put_self, get_loop, put_loop,
    mbind, M_bind, mret, M_ret in *;
  cbn [fst snd self loop] in *.

Lemma py_eq_true (p : string) (token : option string) :
  py_eq p token = true <-> token = Some p.
Proof.
  destruct token as [t|]; simpl.
  - rewrite String.eqb_eq. split; intros H; [subst | inversion H]; auto.
  - split; intros H; discriminate.
Qed.

Lemma py_eq_false (p : string) (token : option string) :
  py_eq p token = false <-> token <> Some p.
Proof.
  rewrite <- py_eq_true. destruct (py_eq p token); split; intros H;
    try discriminate; auto. exfalso. apply H. reflexivity.
Qed.

(** The message callback in each of its three branches. *)
Lemma message_unmatched s topic payload qos :
  let p := effective_payload (self s) payload in
  _payload_on (self s) <> Some p -> _payload_off (self s) <> Some p ->
  exec (state_message_received topic payload qos) s =
  {| self := self s;
     loop := with_log (log (loop s) ++ [unmatched_warning (self s)])
               (loop s) |}.
Proof.
  intros p Hon Hoff. apply py_eq_false in Hon, Hoff. subst p.
  run. rewrite Hon, Hoff. reflexivity.
Qed.

Lemma message_matched s topic payload qos (b : bool) :
  let p := effective_payload (self s) payload in
  (if b then _payload_on (self s) = Some p
   else _payload_on (self s) <> Some p /\ _payload_off (self s) = Some p) ->
  exec (state_message_received topic payload qos) s = matched_effect b s.
Proof.
  intros p H. subst p.
  assert (Hon : py_eq (effective_payload (self s) payload)
                  (_payload_on (self s)) = b).
  { destruct b; [apply py_eq_true, H | apply py_eq_false, H]. }
  assert (Hoff : b = false ->
                 py_eq (effective_payload (self s) payload)
                   (_payload_off (self s)) = true).
  { intros ->. apply py_eq_true, H. }
  clear H. destruct s as [a h]. unfold matched_effect, rescheduled, canceled.
  run. rewrite Hon.
  destruct b; [|rewrite (Hoff eq_refl)]; cbn;
    destruct a as [cfg st sub [id|] nm tp dc pon poff q fu [d|] tpl uid hs];
    reflexivity.
Qed.

Lemma message_cases s topic payload qos :
  let p := effective_payload (self s) payload in
  let s' := exec (state_message_received topic payload qos) s in
  (_payload_on (self s) = Some p /\ s' = matched_effect true s) \/
  (_payload_on (self s) <> Some p /\ _payload_off (self s) = Some p /\
   s' = matched_effect false s) \/
  (_payload_on (self s) <> Some p /\ _payload_off (self s) <> Some p /\
   s' = {| self := self s;
           loop := with_log
                     (log (loop s) ++ [unmatched_warning (self s)])
                     (loop s) |}).
Proof.
  intros p s'. subst s'.
  destruct (decide (_payload_on (self s) = Some p)) as [Hon|Hon].
  - left. split; [assumption|]. apply (message_matched s _ _ _ true), Hon.
  - right. destruct (decide (_payload_off (self s) = Some p)) as [Hoff|Hoff].
    + left. repeat split; try assumption.
      apply (message_matched s _ _ _ false). split; assumption.
    + right. repeat split; try assumption.
      apply message_unmatched; assumption.
Qed.

Lemma canceled_empty s : timer_inv s -> canceled s = ∅.
Proof.
  unfold timer_inv, canceled.
  destruct (_delay_listener (self s)) as [id|]; [|auto].
  intros [[due ->] _]. apply delete_singleton_eq.
Qed.

Lemma matched_effect_timer_inv b s :
  timer_inv s -> timer_inv (matched_effect b s).
Proof.
  intros Hinv. unfold matched_effect.
  rewrite (canceled_empty s Hinv).
  destruct (rescheduled b s) as [[id due]|] eqn:Hr; unfold timer_inv; cbn.
  - unfold rescheduled in Hr.
    destruct (_off_delay (self s)); [|discriminate].
    destruct b; [|discriminate]. inversion Hr; subst.
    split; [exists (now (loop s) + Z.of_N n * 1000);
            apply insert_empty |].
    split; [lia | reflexivity].
  - reflexivity.
Qed.

Lemma fire_timer_cases id s :
  (exists due, timers (loop s) !! id = Some due /\ due <= now (loop s) /\
     exec (fire_timer id) s =
     exec (off_delay_listener due)
       {| self := self s;
          loop := with_timers (delete id (timers (loop s)))
                    (next_timer (loop s)) (loop s) |}) \/
  ((forall due, timers (loop s) !! id = Some due -> now (loop s) < due) /\
   exec (fire_timer id) s = s).
Proof.
  destruct (timers (loop s) !! id) as [due|] eqn:Hl.
  - destruct (Z.leb_spec due (now (loop s))) as [Hle|Hgt].
    + left. exists due. repeat split; try assumption.
      run. rewrite Hl. apply Z.leb_le in Hle. rewrite Hle. reflexivity.
    + right. split.
      * intros due' H. inversion H; subst. assumption.
      * run. rewrite Hl. apply Z.leb_gt in Hgt. rewrite Hgt. reflexivity.
  - right. split; [intros due H; discriminate|].
    run. rewrite Hl. reflexivity.
Qed.

Lemma fire_timer_timer_inv id s :
  timer_inv s -> timer_inv (exec (fire_timer id) s).
Proof.
  intros Hinv.
  destruct (fire_timer_cases id s) as [(due & Hl & _ & ->)|[_ ->]];
    [|assumption].
  unfold timer_inv in *. run. cbn.
  destruct (_delay_listener (self s)) as [id0|].
  - destruct Hinv as [[due0 Ht] _]. rewrite Ht in *.
    apply lookup_singleton_Some in Hl as [-> _].
    apply delete_singleton_eq.
  - rewrite Hinv in Hl. rewrite lookup_empty in Hl. discriminate.
Qed.

Lemma handle_timer_inv e s :
  timer_inv s -> timer_inv (exec (handle e) s).
Proof.
  intros Hinv. destruct e; cbn [handle].
  - destruct (message_cases s topic payload qos)
      as [[_ ->]|[(_ & _ & ->)|(_ & _ & ->)]].
    + apply matched_effect_timer_inv, Hinv.
    + apply matched_effect_timer_inv, Hinv.
    + exact Hinv.
  - apply fire_timer_timer_inv, Hinv.
  - exact Hinv.
  - exact Hinv.
  - exact Hinv.
  - exact Hinv.
  - exact Hinv.
Qed.

Lemma reachable_timer_inv s : reachable s -> timer_inv s.
Proof.
  induction 1 as [config dh t0|s e _ IH].
  - reflexivity.
  - apply handle_timer_inv, IH.
Qed.

(** *** Subscriptions *)

Lemma live_subscriptions_empty s :
  sub_inv s ->
  match _sub_state (self s) with
  | Some old => delete old (subscriptions (loop s))
  | None => subscriptions (loop s)
  end = ∅.
Proof.
  intros Hinv. apply map_empty. intros h.
  destruct (_sub_state (self s)) as [old|] eqn:Hs.
  - destruct (decide (h = old)) as [->|Hne].
    + apply lookup_delete_eq.
    + rewrite lookup_delete_ne by congruence.
      destruct (subscriptions (loop s) !! h) eqn:Hl; [|reflexivity].
      assert (_sub_state (self s) = Some h) as Hh
        by (apply Hinv; eexists; exact Hl).
      congruence.
  - destruct (subscriptions (loop s) !! h) eqn:Hl; [|reflexivity].
    assert (_sub_state (self s) = Some h) as Hh
      by (apply Hinv; eexists; exact Hl).
    congruence.
Qed.

Lemma subscribe_topics_effect s :
  sub_inv s ->
  exec _subscribe_topics s =
  {| self := with_sub_state (Some (next_sub (loop s))) (self s);
     loop := with_subscriptions
               {[ next_sub (loop s) := state_topic_spec (self s) ]}
               (S (next_sub (loop s))) (loop s) |}.
Proof.
  intros Hinv. pose proof (live_subscriptions_empty s Hinv) as He.
  run. cbn. rewrite He. rewrite insert_empty. reflexivity.
Qed.

Lemma unsubscribe_topics_effect s :
  sub_inv s ->
  exec async_will_remove_from_hass s =
  {| self := self s;
     loop := with_subscriptions ∅ (next_sub (loop s)) (loop s) |}.
Proof.
  intros Hinv. pose proof (live_subscriptions_empty s Hinv) as He.
  run. cbn. rewrite He. reflexivity.
Qed.

Lemma subscribe_topics_sub_inv s :
  sub_inv s -> sub_inv (exec _subscribe_topics s).
Proof.
  intros Hinv. rewrite (subscribe_topics_effect s Hinv).
  intros h [v Hv]. cbn in *.
  apply lookup_singleton_Some in Hv as [-> _]. reflexivity.
Qed.

Lemma handle_sub_inv e s : sub_inv s -> sub_inv (exec (handle e) s).
Proof.
  intros Hinv. destruct e; cbn [handle].
  - destruct (message_cases s topic payload qos)
      as [[_ ->]|[(_ & _ & ->)|(_ & _ & ->)]];
      try exact Hinv;
      unfold matched_effect; destruct (rescheduled _ s) as [[? ?]|];
      exact Hinv.
  - destruct (fire_timer_cases id s) as [(due & _ & _ & ->)|[_ ->]];
      exact Hinv.
  - exact Hinv.
  - apply subscribe_topics_sub_inv, Hinv.
  - rewrite (unsubscribe_topics_effect s Hinv).
    intros h [v Hv]. cbn in Hv. rewrite lookup_empty in Hv. discriminate.
  - unfold discovery_update, exec. unfold mbind at 1 2, M_bind.
    pose proof (subscribe_topics_sub_inv
      (exec (_setup_from_config config) s) Hinv) as H.
    unfold exec in H.
    destruct (_setup_from_config config s) as [u s1]. cbn in H.
    destruct (_subscribe_topics s1) as [u' s2]. exact H.
  - exact Hinv.
Qed.

Lemma reachable_sub_inv s : reachable s -> sub_inv s.
Proof.
  induction 1 as [config dh t0|s e _ IH].
  - intros h [v Hv]. cbn in Hv. rewrite lookup_empty in Hv. discriminate.
  - apply handle_sub_inv, IH.
Qed.

Lemma repeat_call_succ n (m : M unit) s :
  exec (repeat_call (S n) m) s = exec (repeat_call n m) (exec m s).
Proof.
  unfold exec. cbn [repeat_call]. unfold mbind, M_bind.
  destruct (m s) as [u s1]. reflexivity.
Qed.

(** *** Running the loop *)

Lemma due_timers_empty t h : timers h = ∅ -> due_timers t h = [].
Proof.
  intros He. unfold due_timers. rewrite He, map_to_list_empty.
  reflexivity.
Qed.

Lemma due_timers_singleton t h id due :
  timers h = {[ id := due ]} ->
  due_timers t h = if decide (due <= t) then [(id, due)] else [].
Proof.
  intros He. unfold due_timers. rewrite He, map_to_list_singleton.
  rewrite filter_cons, filter_nil. cbn [snd].
  destruct (decide (due <= t)); reflexivity.
Qed.

Lemma advance_to_idle t s :
  (forall id due, timers (loop s) !! id = Some due -> t < due) ->
  timer_inv s ->
  exec (advance_to t) s =
  {| self := self s; loop := with_now (Z.max (now (loop s)) t) (loop s) |}.
Proof.
  intros Hlate Hinv. unfold timer_inv in Hinv.
  unfold advance_to, exec, mbind, M_bind, get_loop.
  destruct (_delay_listener (self s)) as [id|].
  - destruct Hinv as [[due Ht] _].
    rewrite (due_timers_singleton t _ id due Ht).
    assert (t < due) by (apply (Hlate id); rewrite Ht;
                         apply lookup_singleton_eq).
    destruct (decide (due <= t)); [lia|]. reflexivity.
  - rewrite (due_timers_empty t _ Hinv). reflexivity.
Qed.

Lemma advance_to_fired t s id due :
  timers (loop s) = {[ id := due ]} -> due <= t ->
  exec (advance_to t) s =
  {| self := with_state (Some false) (with_delay_listener None (self s));
     loop := with_now (Z.max (Z.max (now (loop s)) due) t)
               (with_ha_state_updates (S (ha_state_updates (loop s)))
                  (with_timers ∅ (next_timer (loop s)) (loop s))) |}.
Proof.
  intros Ht Hdue.
  unfold advance_to, exec, mbind at 1, M_bind, get_loop.
  rewrite (due_timers_singleton t _ id due Ht).
  destruct (decide (due <= t)); [|lia].
  cbn [fire_all]. run. cbn. rewrite Ht, lookup_singleton_eq.
  assert ((due <=? Z.max (now (loop s)) due) = true) as ->
    by (apply Z.leb_le; lia).
  cbn. rewrite delete_singleton_eq. reflexivity.
Qed.

Lemma advance_to_cases t s :
  timer_inv s ->
  ((forall id due, timers (loop s) !! id = Some due -> t < due) /\
   exec (advance_to t) s =
   {| self := self s;
      loop := with_now (Z.max (now (loop s)) t) (loop s) |}) \/
  (exists id due,
     timers (loop s) = {[ id := due ]} /\ due <= t /\
     exec (advance_to t) s =
     {| self := with_state (Some false)
                  (with_delay_listener None (self s));
        loop := with_now (Z.max (Z.max (now (loop s)) due) t)
                  (with_ha_state_updates (S (ha_state_updates (loop s)))
                     (with_timers ∅ (next_timer (loop s)) (loop s))) |}).
Proof.
  intros Hinv. pose proof Hinv as Hinv'. unfold timer_inv in Hinv'.
  destruct (_delay_listener (self s)) as [id|] eqn:Hd.
  - destruct Hinv' as [[due Ht] _].
    destruct (decide (due <= t)) as [Hle|Hgt].
    + right. exists id, due. repeat split; try assumption.
      apply (advance_to_fired t s id due Ht Hle).
    + left.
      assert (forall id' due', timers (loop s) !! id' = Some due' ->
                               t < due') as Hlate.
      { intros id' due' Hl. rewrite Ht in Hl.
        apply lookup_singleton_Some in Hl as [_ <-]. lia. }
      split; [exact Hlate | apply advance_to_idle; assumption].
  - left.
    assert (forall id' due', timers (loop s) !! id' = Some due' ->
                             t < due') as Hlate.
    { intros id' due' Hl. rewrite Hinv', lookup_empty in Hl.
      discriminate. }
    split; [exact Hlate | apply advance_to_idle; assumption].
Qed.

Lemma advance_to_timer_inv t s :
  timer_inv s -> timer_inv (exec (advance_to t) s).
Proof.
  intros Hinv.
  destruct (advance_to_cases t s Hinv)
    as [[_ ->]|(id & due & _ & _ & ->)].
  - exact Hinv.
  - reflexivity.
Qed.

Lemma run_events_reachable es s : reachable s -> reachable (run_events es s).
Proof.
  revert s. induction es as [|e es IH]; intros s Hs; [exact Hs|].
  cbn. apply IH. apply reachable_step, Hs.
Qed.

(** *** Attributes that are always set *)

Lemma is_Some_Some {A} (x : A) : is_Some (Some x).
Proof. exists x. reflexivity. Qed.

Lemma configured_inv_frame s s' :
  _name (self s') = _name (self s) ->
  _state_topic (self s') = _state_topic (self s) ->
  _payload_on (self s') = _payload_on (self s) ->
  _payload_off (self s') = _payload_off (self s) ->
  _qos (self s') = _qos (self s) ->
  _force_update (self s') = _force_update (self s) ->
  log (loop s') = log (loop s) ->
  configured_inv s -> configured_inv s'.
Proof.
  unfold configured_inv. intros -> -> -> -> -> -> ->. auto.
Qed.

Lemma setup_configured_inv config s :
  Forall names_entity_and_topic (log (loop s)) ->
  configured_inv (exec (_setup_from_config config) s).
Proof.
  intros Hlog. unfold configured_inv. run. cbn.
  repeat split; try apply is_Some_Some. exact Hlog.
Qed.

Lemma handle_configured_inv e s :
  configured_inv s -> configured_inv (exec (handle e) s).
Proof.
  intros Hinv. destruct e; cbn [handle].
  - destruct (message_cases s topic payload qos)
      as [[_ ->]|[(_ & _ & ->)|(_ & _ & ->)]].
    + unfold matched_effect. destruct (rescheduled true s) as [[? ?]|];
        revert Hinv; apply configured_inv_frame; reflexivity.
    + unfold matched_effect. destruct (rescheduled false s) as [[? ?]|];
        revert Hinv; apply configured_inv_frame; reflexivity.
    + destruct Hinv as (Hn & Ht & Hon & Hoff & Hq & Hf & Hlog).
      unfold configured_inv. cbn. repeat split; try assumption.
      apply Forall_app. split; [exact Hlog|].
      apply Forall_cons. split; [|constructor].
      destruct Hn as [n Hn], Ht as [tp Ht].
      split; [reflexivity|]. exists n, tp. cbn. rewrite Hn, Ht.
      reflexivity.
  - destruct (fire_timer_cases id s) as [(due & _ & _ & ->)|[_ ->]];
      [|exact Hinv].
    revert Hinv. apply configured_inv_frame; reflexivity.
  - apply setup_configured_inv. apply Hinv.
  - revert Hinv. apply configured_inv_frame; reflexivity.
  - revert Hinv. apply configured_inv_frame; reflexivity.
  - destruct Hinv as (_ & _ & _ & _ & _ & _ & Hlog).
    unfold configured_inv. cbn.
    repeat split; try apply is_Some_Some. exact Hlog.
  - revert Hinv. apply configured_inv_frame; reflexivity.
Qed.

Lemma reachable_configured_inv s : reachable s -> configured_inv s.
Proof.
  induction 1 as [config dh t0|s e _ IH].
  - unfold configured_inv. cbn.
    repeat split; try apply is_Some_Some. constructor.
  - apply handle_configured_inv, IH.
Qed.

(** ** The claims *)

(** C1 (counterexample).  With both tokens set to ["ON"] a message ["ON"]
    equals [payload_off], yet the state becomes true, not false: the
    independent reading of the three cases fails. *)
Lemma equal_tokens_refute_independent_cases :
  _payload_off (self same_token_system) =
    Some (effective_payload (self same_token_system) "ON") /\
  _state (self (exec (state_message_received "test-topic" "ON" 0)
                  same_token_system)) = Some true /\
  ~ message_effect_independent same_token_system "test-topic" "ON" 0.
Proof.
  split; [reflexivity|]. split; [reflexivity|].
  unfold message_effect_independent. intros (_ & Hoff & _).
  specialize (Hoff eq_refl). vm_compute in Hoff. discriminate.
Qed.

(** C1 (amended).  For every system and every payload, with [p] the
    payload after the value template: if [p] equals [payload_on] the state
    becomes true; if [p] differs from [payload_on] and equals
    [payload_off] the state becomes false; otherwise the state is
    unchanged and the warning naming the entity and the state topic is
    logged.  The comparison is string equality on the whole payload. *)
Theorem state_message_received_effect :
  forall (s : System) (topic payload : string) (qos : Z),
    let p := effective_payload (self s) payload in
    let s' := exec (state_message_received topic payload qos) s in
    (_payload_on (self s) = Some p -> _state (self s') = Some true) /\
    (_payload_on (self s) <> Some p -> _payload_off (self s) = Some p ->
     _state (self s') = Some false) /\
    (_payload_on (self s) <> Some p -> _payload_off (self s) <> Some p ->
     _state (self s') = _state (self s) /\
     log (loop s') = (log (loop s) ++ [unmatched_warning (self s)])%list).
Proof.
  intros s topic payload qos p s'.
  destruct (message_cases s topic payload qos)
    as [[Hon E]|[(Hon & Hoff & E)|(Hon & Hoff & E)]];
    fold p in Hon; try fold p in Hoff; fold s' in E; rewrite E;
    repeat split; intros; try contradiction; try congruence;
    unfold matched_effect; destruct (rescheduled _ s) as [[? ?]|];
    reflexivity.
Qed.

(** C4.  A message whose payload matches neither token makes the callback
    return normally with the entity untouched (state and pending timer
    included) and the host untouched (registered timers and scheduled
    refreshes included) except for exactly one more log record. *)
Theorem unmatched_payload_only_logs :
  forall (s : System) (topic payload : string) (qos : Z),
    _payload_on (self s) <> Some (effective_payload (self s) payload) ->
    _payload_off (self s) <> Some (effective_payload (self s) payload) ->
    state_message_received topic payload qos s =
    (tt, {| self := self s;
            loop := {| now := now (loop s);
                       timers := timers (loop s);
                       next_timer := next_timer (loop s);
                       subscriptions := subscriptions (loop s);
                       next_sub := next_sub (loop s);
                       log := log (loop s) ++ [unmatched_warning (self s)];
                       ha_state_updates := ha_state_updates (loop s) |} |}).
Proof.
  intros s topic payload qos Hon Hoff.
  apply py_eq_false in Hon, Hoff.
  run. rewrite Hon, Hoff. reflexivity.
Qed.

Lemma unmatched_payload_only_logs_witness :
  _payload_on (self plain_system) <>
    Some (effective_payload (self plain_system) "TOGGLE") /\
  _payload_off (self plain_system) <>
    Some (effective_payload (self plain_system) "TOGGLE") /\
  _state (self (state_message_received "test-topic" "TOGGLE" 0
                  plain_system).2) = None /\
  length (log (loop (state_message_received "test-topic" "TOGGLE" 0
                       plain_system).2)) = 1%nat.
Proof.
  assert (H1 : _payload_on (self plain_system) <>
               Some (effective_payload (self plain_system) "TOGGLE"))
    by (vm_compute; discriminate).
  assert (H2 : _payload_off (self plain_system) <>
               Some (effective_payload (self plain_system) "TOGGLE"))
    by (vm_compute; discriminate).
  split; [exact H1|]. split; [exact H2|].
  rewrite (unmatched_payload_only_logs plain_system "test-topic" "TOGGLE" 0
             H1 H2).
  split; reflexivity.
Defined.

(** C5.  When the off-delay timer calls [off_delay_listener], the handle
    in [_delay_listener] is cleared, the state is set to false and one
    refresh of the displayed state is scheduled, whatever the state
    before; nothing else changes. *)
Theorem off_delay_listener_effect :
  forall (s : System) (fired_at : Z),
    off_delay_listener fired_at s =
    (tt, {| self := with_state (Some false)
                      (with_delay_listener None (self s));
            loop := with_ha_state_updates
                      (S (ha_state_updates (loop s))) (loop s) |}) /\
    (forall id due,
       timers (loop s) !! id = Some due -> due <= now (loop s) ->
       let s' := exec (fire_timer id) s in
       _delay_listener (self s') = None /\
       _state (self s') = Some false /\
       ha_state_updates (loop s') = S (ha_state_updates (loop s)) /\
       timers (loop s') !! id = None).
Proof.
  intros s fired_at. split; [reflexivity|].
  intros id due Hl Hdue s'. subst s'.
  destruct (fire_timer_cases id s) as [(due' & _ & _ & ->)|[Hlate _]].
  - run. cbn. repeat split. apply lookup_delete_eq.
  - specialize (Hlate due Hl). lia.
Qed.

(** C8.  [_setup_from_config] overwrites the configuration attributes
    (name, state topic, device class, qos, force update, off delay, the
    two payload tokens, the value template and the unique id) from the
    new configuration and leaves [_state], [_sub_state] and
    [_delay_listener], like the host, as they were, for every prior
    system and every configuration. *)
Theorem setup_from_config_frame :
  forall (s : System) (config : ConfigType),
    let s' := exec (_setup_from_config config) s in
    (_state (self s') = _state (self s) /\
     _sub_state (self s') = _sub_state (self s) /\
     _delay_listener (self s') = _delay_listener (self s) /\
     loop s' = loop s) /\
    (_name (self s') = Some (CONF_NAME config) /\
     _state_topic (self s') = Some (CONF_STATE_TOPIC config) /\
     _device_class (self s') = CONF_DEVICE_CLASS config /\
     _qos (self s') = Some (CONF_QOS config) /\
     _force_update (self s') = Some (CONF_FORCE_UPDATE config) /\
     _off_delay (self s') = CONF_OFF_DELAY config /\
     _payload_on (self s') = Some (CONF_PAYLOAD_ON config) /\
     _payload_off (self s') = Some (CONF_PAYLOAD_OFF config) /\
     async_render_with_possible_json_value <$> _template (self s') =
       async_render_with_possible_json_value <$> CONF_VALUE_TEMPLATE config /\
     _unique_id (self s') = CONF_UNIQUE_ID config).
Proof.
  intros s config s'. subst s'. run. cbn.
  repeat split.
  destruct (CONF_VALUE_TEMPLATE config) as [t|]; [|reflexivity].
  destruct (tpl_hass t); reflexivity.
Qed.

(** C10.  When [payload_on] and [payload_off] are the same token, a
    message whose payload (after the value template) is that token sets
    the state to true: the comparison with [payload_on] comes first. *)
Theorem on_branch_precedence :
  forall (s : System) (topic payload : string) (qos : Z),
    _payload_on (self s) = _payload_off (self s) ->
    _payload_on (self s) = Some (effective_payload (self s) payload) ->
    _state (self (exec (state_message_received topic payload qos) s))
    = Some true.
Proof.
  intros s topic payload qos _ Hon.
  rewrite (message_matched s topic payload qos true Hon).
  unfold matched_effect. destruct (rescheduled true s) as [[? ?]|];
    reflexivity.
Qed.

Lemma on_branch_precedence_witness :
  _payload_on (self same_token_system) =
    _payload_off (self same_token_system) /\
  _payload_on (self same_token_system) =
    Some (effective_payload (self same_token_system) "ON") /\
  _state (self (exec (state_message_received "test-topic" "ON" 0)
                  same_token_system)) = Some true.
Proof.
  split; [reflexivity|]. split; [reflexivity|].
  apply (on_branch_precedence same_token_system "test-topic" "ON" 0);
    reflexivity.
Defined.

(** C9.  In every reachable system a pending off-delay timer goes with
    the state on: if [_delay_listener] holds a handle, or a timer is
    registered for the entity, then [_state] is true. *)
Theorem pending_timer_implies_on :
  forall (s : System),
    reachable s ->
    (is_Some (_delay_listener (self s)) -> _state (self s) = Some true) /\
    (forall id, is_Some (timers (loop s) !! id) ->
                _delay_listener (self s) = Some id /\
                _state (self s) = Some true).
Proof.
  intros s Hr. apply reachable_timer_inv in Hr. unfold timer_inv in Hr.
  destruct (_delay_listener (self s)) as [id0|].
  - destruct Hr as ([due Ht] & _ & Hst). split; [intros _; exact Hst|].
    intros id [d Hl]. rewrite Ht in Hl.
    apply lookup_singleton_Some in Hl as [-> _]. split; [reflexivity|].
    exact Hst.
  - split; [intros [x Hx]; discriminate|].
    intros id [d Hl]. rewrite Hr, lookup_empty in Hl. discriminate.
Qed.

Lemma pending_system_reachable : reachable pending_system.
Proof. apply run_events_reachable, reachable_boot. Qed.

Lemma pending_timer_implies_on_witness :
  reachable pending_system /\
  is_Some (_delay_listener (self pending_system)) /\
  _state (self pending_system) = Some true.
Proof.
  split; [exact pending_system_reachable|].
  split; [exists 0%nat; reflexivity|].
  apply (pending_timer_implies_on pending_system pending_system_reachable).
  exists 0%nat. reflexivity.
Defined.

(** C2.  In every reachable system at most one off-delay timer is
    registered for the entity, and no entry point leaves two: after every
    event there is still at most one.  A message that matches a token
    leaves no previously pending timer registered; afterwards exactly one
    timer, newly issued and due [off_delay] seconds later, is registered
    when the new state is true and [off_delay] is set, and none
    otherwise. *)
Theorem at_most_one_pending_off_timer :
  forall (s : System),
    reachable s ->
    (size (timers (loop s)) <= 1)%nat /\
    (forall id due, timers (loop s) !! id = Some due ->
                    _delay_listener (self s) = Some id) /\
    (forall e : Event,
       (size (timers (loop (exec (handle e) s))) <= 1)%nat) /\
    (forall (topic payload : string) (qos : Z),
       matching_message s (OnMessage topic payload qos) ->
       let s' := exec (state_message_received topic payload qos) s in
       (forall old, _delay_listener (self s) = Some old ->
                    timers (loop s') !! old = None) /\
       match _off_delay (self s), _state (self s') with
       | Some delay, Some true =>
           _delay_listener (self s') = Some (next_timer (loop s)) /\
           timers (loop s') =
             {[ next_timer (loop s) :=
                  now (loop s) + Z.of_N delay * 1000 ]}
       | _, _ =>
           _delay_listener (self s') = None /\ timers (loop s') = ∅
       end).
Proof.
  intros s Hr.
  pose proof (reachable_timer_inv s Hr) as Hinv.
  assert (Hsize : forall x, timer_inv x -> (size (timers (loop x)) <= 1)%nat).
  { intros x Hx. unfold timer_inv in Hx.
    destruct (_delay_listener (self x)).
    - destruct Hx as [[due ->] _]. rewrite map_size_singleton. lia.
    - rewrite Hx, map_size_empty. lia. }
  split; [apply Hsize, Hinv|].
  split.
  { intros id due Hl. unfold timer_inv in Hinv.
    destruct (_delay_listener (self s)) as [id0|].
    - destruct Hinv as [[due0 Ht] _]. rewrite Ht in Hl.
      apply lookup_singleton_Some in Hl as [-> _]. reflexivity.
    - rewrite Hinv, lookup_empty in Hl. discriminate. }
  split; [intros e; apply Hsize, handle_timer_inv, Hinv|].
  intros topic payload qos Hm s'.
  assert (Hold : forall old, _delay_listener (self s) = Some old ->
                             (old < next_timer (loop s))%nat).
  { intros old Ho. unfold timer_inv in Hinv. rewrite Ho in Hinv.
    apply Hinv. }
  assert (E : exists b, s' = matched_effect b s).
  { destruct (message_cases s topic payload qos)
      as [[_ E]|[(_ & _ & E)|(Hon & Hoff & _)]]; eauto.
    cbn in Hm. destruct Hm; contradiction. }
  destruct E as [b E]. rewrite E. clear E s'.
  unfold matched_effect, rescheduled. rewrite (canceled_empty s Hinv).
  destruct (_off_delay (self s)) as [delay|]; [destruct b|]; cbn.
  - split; [|split; [reflexivity | apply insert_empty]].
    intros old Ho. apply Hold in Ho.
    rewrite insert_empty. apply lookup_singleton_ne. lia.
  - split; [|split; reflexivity]. intros old _. apply lookup_empty.
  - split; [|destruct b; split; reflexivity].
    intros old _. apply lookup_empty.
Qed.

Lemma never_matching_system_reachable : reachable never_matching_system.
Proof. apply run_events_reachable, reachable_boot. Qed.

Lemma at_most_one_pending_off_timer_witness :
  (reachable pending_system /\
   matching_message pending_system (OnMessage "test-topic" "ON" 0) /\
   _delay_listener (self pending_system) = Some 0%nat /\
   timers (loop (exec (state_message_received "test-topic" "ON" 0)
                   pending_system)) !! 0%nat = None /\
   (size (timers (loop (exec (state_message_received "test-topic" "ON" 0)
                          pending_system))) <= 1)%nat) /\
  (reachable never_matching_system /\
   timers (loop never_matching_system) = {[ 0%nat := 5000 ]} /\
   (size (timers (loop never_matching_system)) <= 1)%nat /\
   (size (timers (loop (exec (handle (OnMessage "test-topic" "ON" 0))
                          never_matching_system))) <= 1)%nat).
Proof.
  split.
  - assert (Hm : matching_message pending_system
                   (OnMessage "test-topic" "ON" 0))
      by (left; reflexivity).
    split; [exact pending_system_reachable|]. split; [exact Hm|].
    split; [reflexivity|].
    destruct (at_most_one_pending_off_timer pending_system
                pending_system_reachable) as (_ & _ & Hall & Hmsg).
    destruct (Hmsg "test-topic" "ON" 0 Hm) as (Hold & _).
    split; [apply Hold; reflexivity|].
    apply (Hall (OnMessage "test-topic" "ON" 0)).
  - split; [exact never_matching_system_reachable|].
    split; [reflexivity|].
    destruct (at_most_one_pending_off_timer never_matching_system
                never_matching_system_reachable) as (Hsz & _ & Hall & _).
    split; [exact Hsz | apply Hall].
Defined.

(** C3 (counterexample).  In a reachable system that is on with its
    off-delay timer due, the expiry of the timer, which is no message,
    changes the state from true to false. *)
Lemma timer_expiry_changes_state :
  reachable pending_system /\
  _state (self pending_system) = Some true /\
  _state (self (exec (handle (OnOffDelayExpired 0%nat)) pending_system))
    = Some false /\
  ~ only_matching_message_changes_state pending_system
      (OnOffDelayExpired 0%nat).
Proof.
  split; [exact pending_system_reachable|].
  split; [reflexivity|]. split; [reflexivity|].
  unfold only_matching_message_changes_state. intros H.
  assert (Hn : ~ matching_message pending_system (OnOffDelayExpired 0%nat))
    by (intros []).
  specialize (H Hn). vm_compute in H. discriminate.
Qed.

(** C3 (amended).  What each entry point does to [_state]: a message sets
    it to true when the payload equals [payload_on], to false when the
    payload differs from [payload_on] and equals [payload_off], and
    otherwise leaves it unchanged and logs the warning; the expiry of a
    registered, due off-delay timer sets it to false, and any other timer
    event leaves it unchanged; configuring, activating, deactivating, a
    discovery update and the passing of time leave it unchanged. *)
Theorem state_change_causes :
  forall (s : System) (e : Event),
    let s' := exec (handle e) s in
    match e with
    | OnMessage topic payload qos =>
        let p := effective_payload (self s) payload in
        (_payload_on (self s) = Some p /\ _state (self s') = Some true) \/
        (_payload_on (self s) <> Some p /\ _payload_off (self s) = Some p /\
         _state (self s') = Some false) \/
        (_payload_on (self s) <> Some p /\ _payload_off (self s) <> Some p /\
         _state (self s') = _state (self s) /\
         log (loop s') =
           (log (loop s) ++ [unmatched_warning (self s)])%list)
    | OnOffDelayExpired id =>
        (exists due, timers (loop s) !! id = Some due /\
                     due <= now (loop s) /\
                     _state (self s') = Some false) \/
        ((forall due, timers (loop s) !! id = Some due ->
                      now (loop s) < due) /\
         _state (self s') = _state (self s))
    | Configure _ | Activate | Deactivate | DiscoveryUpdate _
    | TimePasses _ =>
        _state (self s') = _state (self s)
    end.
Proof.
  intros s e s'. subst s'. destruct e; cbn [handle]; try reflexivity.
  - destruct (message_cases s topic payload qos)
      as [[Hon ->]|[(Hon & Hoff & ->)|(Hon & Hoff & ->)]].
    + left. split; [exact Hon|]. unfold matched_effect.
      destruct (rescheduled true s) as [[? ?]|]; reflexivity.
    + right; left. repeat split; try assumption. unfold matched_effect.
      destruct (rescheduled false s) as [[? ?]|]; reflexivity.
    + right; right. repeat split; assumption.
  - destruct (fire_timer_cases id s) as [(due & Hl & Hd & ->)|[Hlate ->]].
    + left. exists due. repeat split; assumption.
    + right. split; [exact Hlate | reflexivity].
Qed.

(** C7.  From every reachable system, any positive number of successive
    calls of [_subscribe_topics] leaves exactly one live subscription: one
    handle, the one in [_sub_state], holding one topic filter, which is
    the entity's state topic with the entity's qos; and one call of
    [async_will_remove_from_hass] then leaves no subscription at all. *)
Theorem subscribe_topics_idempotent :
  forall (s : System) (n : nat),
    reachable s ->
    (0 < n)%nat ->
    let s' := exec (repeat_call n _subscribe_topics) s in
    (exists h topic qos,
       _state_topic (self s) = Some topic /\
       _qos (self s) = Some qos /\
       _sub_state (self s') = Some h /\
       subscriptions (loop s') =
         {[ h := {[ "state_topic" :=
                      {| ts_topic := Some topic;
                         ts_qos := Some qos |} ]} ]} /\
       forall h' filters,
         subscriptions (loop s') !! h' = Some filters ->
         h' = h /\ size filters = 1%nat) /\
    size (subscriptions (loop s')) = 1%nat /\
    subscriptions (loop (exec async_will_remove_from_hass s')) = ∅.
Proof.
  intros s n Hr Hn s'.
  assert (Hinv : sub_inv s) by apply reachable_sub_inv, Hr.
  destruct (reachable_configured_inv s Hr)
    as (_ & [topic Htp] & _ & _ & [qos Hq] & _).
  clear Hr.
  assert (H : sub_inv s' /\
              exists h, _sub_state (self s') = Some h /\
                        subscriptions (loop s') =
                          {[ h := state_topic_spec (self s) ]}).
  { subst s'. destruct n as [|n]; [lia|]. clear Hn.
    clear topic Htp qos Hq.
    revert s Hinv. induction n as [|n IH]; intros s Hinv.
    - rewrite repeat_call_succ.
      split; [apply subscribe_topics_sub_inv, Hinv|].
      rewrite (subscribe_topics_effect s Hinv).
      exists (next_sub (loop s)). split; reflexivity.
    - rewrite repeat_call_succ.
      destruct (IH (exec _subscribe_topics s)
                  (subscribe_topics_sub_inv s Hinv)) as [Hi (h & Hh & Hs)].
      split; [exact Hi|]. exists h. split; [exact Hh|].
      rewrite Hs, (subscribe_topics_effect s Hinv). reflexivity. }
  destruct H as [Hi (h & Hh & Hs)].
  assert (Hspec : state_topic_spec (self s) =
                  {[ "state_topic" := {| ts_topic := Some topic;
                                         ts_qos := Some qos |} ]}).
  { unfold state_topic_spec. rewrite Htp, Hq. reflexivity. }
  split.
  { exists h, topic, qos. repeat split; try assumption.
    - rewrite Hs, Hspec. reflexivity.
    - rewrite Hs in H. apply lookup_singleton_Some in H as [<- _].
      reflexivity.
    - rewrite Hs in H. apply lookup_singleton_Some in H as [_ <-].
      rewrite Hspec. apply map_size_singleton. }
  split; [rewrite Hs; apply map_size_singleton|].
  rewrite (unsubscribe_topics_effect s' Hi). reflexivity.
Qed.

Lemma subscribe_topics_idempotent_witness :
  reachable plain_system /\
  (0 < 2)%nat /\
  subscriptions
    (loop (exec (repeat_call 2 _subscribe_topics) plain_system))
    = {[ 1%nat := {[ "state_topic" :=
                       {| ts_topic := Some "test-topic";
                          ts_qos := Some 0 |} ]} ]} /\
  size (subscriptions
          (loop (exec (repeat_call 2 _subscribe_topics) plain_system)))
    = 1%nat /\
  subscriptions
    (loop (exec async_will_remove_from_hass
             (exec (repeat_call 2 _subscribe_topics) plain_system))) = ∅.
Proof.
  assert (Hr : reachable plain_system) by apply reachable_boot.
  assert (Hn : (0 < 2)%nat) by lia.
  split; [exact Hr|]. split; [exact Hn|].
  destruct (subscribe_topics_idempotent plain_system 2 Hr Hn)
    as ((h & topic & qos & Htp & Hq & Hh & Hs & _) & Hsz & Hnone).
  split; [|split; [exact Hsz | exact Hnone]].
  rewrite Hs. inversion Htp. inversion Hq. inversion Hh. reflexivity.
Defined.

(** *** Auto-off after the latest on message *)

Lemma advance_to_settings t s :
  timer_inv s ->
  settings (self (exec (advance_to t) s)) = settings (self s) /\
  now (loop (exec (advance_to t) s)) = Z.max (now (loop s)) t.
Proof.
  intros Hinv.
  destruct (advance_to_cases t s Hinv)
    as [[_ ->]|(id & due & _ & Hd & ->)]; cbn; split; try reflexivity.
  lia.
Qed.

Lemma on_message_effect s topic payload qos delay :
  timer_inv s ->
  _payload_on (self s) = Some (effective_payload (self s) payload) ->
  _off_delay (self s) = Some delay ->
  let s1 := exec (state_message_received topic payload qos) s in
  timer_inv s1 /\
  settings (self s1) = settings (self s) /\
  now (loop s1) = now (loop s) /\
  _state (self s1) = Some true /\
  timers (loop s1) =
    {[ next_timer (loop s) := now (loop s) + Z.of_N delay * 1000 ]}.
Proof.
  intros Hinv Hon Hd s1.
  split; [apply (handle_timer_inv (OnMessage topic payload qos)), Hinv|].
  subst s1. rewrite (message_matched s topic payload qos true Hon).
  unfold matched_effect, rescheduled. rewrite Hd, (canceled_empty s Hinv).
  cbn. repeat split.
Qed.

Lemma wait_with_one_timer s t id due :
  timer_inv s ->
  timers (loop s) = {[ id := due ]} ->
  _state (self s) = Some true ->
  (t < due -> _state (self (exec (advance_to t) s)) = Some true) /\
  (due <= t -> _state (self (exec (advance_to t) s)) = Some false).
Proof.
  intros Hinv Ht Hst. split; intros Hcmp.
  - rewrite advance_to_idle; [exact Hst| |exact Hinv].
    intros id' due' Hl. rewrite Ht in Hl.
    apply lookup_singleton_Some in Hl as [_ <-]. exact Hcmp.
  - rewrite (advance_to_fired t s id due Ht Hcmp). reflexivity.
Qed.

Lemma settings_effective_payload a a' payload :
  settings a = settings a' ->
  effective_payload a payload = effective_payload a' payload /\
  _payload_on a = _payload_on a' /\ _off_delay a = _off_delay a'.
Proof.
  unfold settings, effective_payload. intros H.
  injection H as H1 H2 H3 H4. rewrite H4. auto.
Qed.

(** C6.  With an off delay of five seconds, an on message at time [T] and
    a second on message at [T + 2] seconds, and no further message: the
    state is true at [T + 5.5] seconds and false at [T + 7.1] seconds;
    more precisely it is true at every instant from the second message up
    to, and excluding, [T + 7] seconds and false from then on. *)
Theorem timer_supersession :
  forall (s : System) (T : Z) (topic payload1 payload2 : string) (qos : Z),
    reachable s ->
    now (loop s) <= T ->
    _off_delay (self s) = Some 5%N ->
    _payload_on (self s) = Some (effective_payload (self s) payload1) ->
    _payload_on (self s) = Some (effective_payload (self s) payload2) ->
    let s1 := exec (state_message_received topic payload1 qos)
                (exec (advance_to T) s) in
    let s2 := exec (state_message_received topic payload2 qos)
                (exec (advance_to (T + 2000)) s1) in
    _state (self (exec (advance_to (T + 5500)) s2)) = Some true /\
    _state (self (exec (advance_to (T + 7100)) s2)) = Some false /\
    (forall t, T + 2000 <= t < T + 7000 ->
               _state (self (exec (advance_to t) s2)) = Some true) /\
    (forall t, T + 7000 <= t ->
               _state (self (exec (advance_to t) s2)) = Some false).
Proof.
  intros s T topic payload1 payload2 qos Hr Hnow Hd Hon1 Hon2 s1 s2.
  apply reachable_timer_inv in Hr.
  (* the loop reaches T *)
  pose proof (advance_to_timer_inv T s Hr) as Hi0.
  destruct (advance_to_settings T s Hr) as [Hset0 Hnow0].
  destruct (settings_effective_payload _ _ payload1 Hset0)
    as (He0 & Hp0 & Hd0).
  (* first message *)
  destruct (on_message_effect (exec (advance_to T) s) topic payload1 qos 5%N
              Hi0) as (Hi1 & Hset1 & Hnow1 & _ & _).
  { rewrite Hp0, He0. exact Hon1. }
  { rewrite Hd0. exact Hd. }
  fold s1 in Hi1, Hset1, Hnow1.
  (* the loop reaches T + 2 s *)
  pose proof (advance_to_timer_inv (T + 2000) s1 Hi1) as Hi1'.
  destruct (advance_to_settings (T + 2000) s1 Hi1) as [Hset1' Hnow1'].
  assert (Hset : settings (self (exec (advance_to (T + 2000)) s1))
                 = settings (self s)) by congruence.
  destruct (settings_effective_payload _ _ payload2 Hset)
    as (He2 & Hp2 & Hd2).
  (* second message *)
  destruct (on_message_effect (exec (advance_to (T + 2000)) s1)
              topic payload2 qos 5%N Hi1')
    as (Hi2 & _ & _ & Hst2 & Ht2).
  { rewrite Hp2, He2. exact Hon2. }
  { rewrite Hd2. exact Hd. }
  fold s2 in Hi2, Hst2, Ht2.
  assert (Hdue : now (loop (exec (advance_to (T + 2000)) s1))
                 + Z.of_N 5 * 1000 = T + 7000) by lia.
  rewrite Hdue in Ht2.
  assert (Hwait := fun t => wait_with_one_timer s2 t _ _ Hi2 Ht2 Hst2).
  split; [apply (Hwait (T + 5500)); lia|].
  split; [apply (Hwait (T + 7100)); lia|].
  split; intros t Ht; apply (Hwait t); lia.
Qed.

Lemma timer_supersession_witness :
  reachable delay_system /\
  now (loop delay_system) <= 10000 /\
  _off_delay (self delay_system) = Some 5%N /\
  _payload_on (self delay_system) =
    Some (effective_payload (self delay_system) "ON") /\
  let s1 := exec (state_message_received "test-topic" "ON" 0)
              (exec (advance_to 10000) delay_system) in
  let s2 := exec (state_message_received "test-topic" "ON" 0)
              (exec (advance_to 12000) s1) in
  _state (self (exec (advance_to 15500) s2)) = Some true /\
  _state (self (exec (advance_to 17100) s2)) = Some false.
Proof.
  assert (Hr : reachable delay_system) by apply reachable_boot.
  assert (Hn : now (loop delay_system) <= 10000) by (vm_compute; discriminate).
  split; [exact Hr|]. split; [exact Hn|].
  split; [reflexivity|]. split; [reflexivity|].
  destruct (timer_supersession delay_system 10000 "test-topic" "ON" "ON" 0
              Hr Hn eq_refl eq_refl eq_refl) as (H1 & H2 & _).
  split; [exact H1 | exact H2].
Defined.

(** ** Further properties of the entity *)

(** X1.  Configuring twice is configuring with the last configuration:
    [_setup_from_config] keeps nothing of an earlier configuration, and
    applying the same configuration again changes nothing. *)
Theorem setup_from_config_last_wins :
  forall (s : System) (c1 c2 : ConfigType),
    exec (_setup_from_config c2) (exec (_setup_from_config c1) s) =
      exec (_setup_from_config c2) s /\
    exec (_setup_from_config c1) (exec (_setup_from_config c1) s) =
      exec (_setup_from_config c1) s.
Proof.
  intros s c1 c2. split; reflexivity.
Qed.

Lemma handle_state_known e s :
  _state (self s) <> None -> _state (self (exec (handle e) s)) <> None.
Proof.
  intros Hk. destruct e; cbn [handle]; try exact Hk.
  - destruct (message_cases s topic payload qos)
      as [[_ ->]|[(_ & _ & ->)|(_ & _ & ->)]]; try exact Hk;
      unfold matched_effect; destruct (rescheduled _ s) as [[? ?]|];
      cbn; discriminate.
  - destruct (fire_timer_cases id s) as [(due & _ & _ & ->)|[_ ->]];
      [cbn; discriminate | exact Hk].
Qed.

(** X2.  Once the state is known it stays known: no run of events takes
    [_state] from true or false back to [None]. *)
Theorem state_stays_known :
  forall (s : System) (es : list Event),
    _state (self s) <> None ->
    _state (self (run_events es s)) <> None.
Proof.
  intros s es. revert s. induction es as [|e es IH]; intros s Hk.
  - exact Hk.
  - cbn. apply IH, handle_state_known, Hk.
Qed.

Lemma state_stays_known_witness :
  _state (self on_system) <> None /\
  _state (self (run_events
                  [Configure other_config; Deactivate;
                   OnMessage "door/state" "ajar" 0; TimePasses 60000]
                  on_system)) <> None.
Proof.
  assert (H : _state (self on_system) <> None) by (vm_compute; discriminate).
  split; [exact H|]. apply state_stays_known, H.
Defined.

(** X3.  Every message that matches a token schedules exactly one refresh
    of the displayed state and logs nothing, whether or not the state it
    sets differs from the state before; [_force_update] is not looked
    at. *)
Theorem matching_message_schedules_one_refresh :
  forall (s : System) (topic payload : string) (qos : Z),
    matching_message s (OnMessage topic payload qos) ->
    let s' := exec (state_message_received topic payload qos) s in
    ha_state_updates (loop s') = S (ha_state_updates (loop s)) /\
    log (loop s') = log (loop s) /\
    subscriptions (loop s') = subscriptions (loop s) /\
    settings (self s') = settings (self s) /\
    _force_update (self s') = _force_update (self s).
Proof.
  intros s topic payload qos Hm s'. subst s'.
  destruct (message_cases s topic payload qos)
    as [[_ ->]|[(_ & _ & ->)|(Hon & Hoff & _)]].
  - unfold matched_effect. destruct (rescheduled true s) as [[? ?]|];
      repeat split.
  - unfold matched_effect. destruct (rescheduled false s) as [[? ?]|];
      repeat split.
  - cbn in Hm. destruct Hm; contradiction.
Qed.

Lemma matching_message_schedules_one_refresh_witness :
  matching_message on_system (OnMessage "test-topic" "ON" 0) /\
  _state (self on_system) = Some true /\
  _state (self (exec (state_message_received "test-topic" "ON" 0)
                  on_system)) = Some true /\
  ha_state_updates
    (loop (exec (state_message_received "test-topic" "ON" 0) on_system))
  = S (ha_state_updates (loop on_system)).
Proof.
  assert (Hm : matching_message on_system (OnMessage "test-topic" "ON" 0))
    by (left; reflexivity).
  split; [exact Hm|]. split; [reflexivity|]. split; [reflexivity|].
  apply (matching_message_schedules_one_refresh on_system
           "test-topic" "ON" 0 Hm).
Defined.

(** X4.  After an on message with an off delay of [delay] seconds, and
    with no further message, the state is true at every instant before
    [delay] seconds have passed and false from that instant on, when the
    handle is cleared, no timer is left and a second refresh has been
    scheduled.  With a delay of zero the state is false as soon as the
    loop runs. *)
Theorem auto_off_after_delay :
  forall (s : System) (topic payload : string) (qos : Z) (delay : N)
         (t : Z),
    reachable s ->
    _payload_on (self s) = Some (effective_payload (self s) payload) ->
    _off_delay (self s) = Some delay ->
    let s1 := exec (state_message_received topic payload qos) s in
    let due := now (loop s) + Z.of_N delay * 1000 in
    _state (self s1) = Some true /\
    (t < due -> _state (self (exec (advance_to t) s1)) = Some true) /\
    (due <= t ->
     let s2 := exec (advance_to t) s1 in
     _state (self s2) = Some false /\
     _delay_listener (self s2) = None /\
     timers (loop s2) = ∅ /\
     ha_state_updates (loop s2) = S (S (ha_state_updates (loop s)))).
Proof.
  intros s topic payload qos delay t Hr Hon Hd s1 due.
  apply reachable_timer_inv in Hr.
  destruct (on_message_effect s topic payload qos delay Hr Hon Hd)
    as (Hi1 & _ & _ & Hst & Ht).
  fold s1 in Hi1, Hst, Ht. fold due in Ht.
  split; [exact Hst|]. split.
  - intros Hlt.
    apply (wait_with_one_timer s1 t _ _ Hi1 Ht Hst). exact Hlt.
  - intros Hle s2. subst s2.
    rewrite (advance_to_fired t s1 _ _ Ht Hle). cbn.
    repeat split. f_equal. subst s1.
    rewrite (message_matched s topic payload qos true Hon).
    unfold matched_effect, rescheduled. rewrite Hd. reflexivity.
Qed.

Lemma zero_delay_system_reachable :
  reachable (boot (example_config "ON" "OFF" (Some 0%N)) None 0).
Proof. apply reachable_boot. Qed.

Lemma auto_off_after_delay_witness :
  reachable (boot (example_config "ON" "OFF" (Some 0%N)) None 0) /\
  let s := boot (example_config "ON" "OFF" (Some 0%N)) None 0 in
  let s1 := exec (state_message_received "test-topic" "ON" 0) s in
  _state (self s1) = Some true /\
  _state (self (exec (advance_to 0) s1)) = Some false.
Proof.
  split; [exact zero_delay_system_reachable|].
  destruct (auto_off_after_delay
              (boot (example_config "ON" "OFF" (Some 0%N)) None 0)
              "test-topic" "ON" 0 0%N 0 zero_delay_system_reachable
              eq_refl eq_refl) as (H1 & _ & H2).
  split; [exact H1|]. apply H2. vm_compute. discriminate.
Defined.

(** X5.  An off message ends a pending auto-off: afterwards the state is
    false, the handle is cleared and no timer is registered, so that the
    passing of time neither changes the entity nor schedules a refresh. *)
Theorem off_message_cancels_auto_off :
  forall (s : System) (topic payload : string) (qos : Z) (t : Z),
    reachable s ->
    _payload_on (self s) <> Some (effective_payload (self s) payload) ->
    _payload_off (self s) = Some (effective_payload (self s) payload) ->
    let s1 := exec (state_message_received topic payload qos) s in
    _state (self s1) = Some false /\
    _delay_listener (self s1) = None /\
    timers (loop s1) = ∅ /\
    self (exec (advance_to t) s1) = self s1 /\
    ha_state_updates (loop (exec (advance_to t) s1)) =
      ha_state_updates (loop s1).
Proof.
  intros s topic payload qos t Hr Hon Hoff s1.
  apply reachable_timer_inv in Hr.
  assert (E : s1 = matched_effect false s).
  { subst s1. apply (message_matched s topic payload qos false).
    split; assumption. }
  assert (Hfacts : _state (self s1) = Some false /\
                   _delay_listener (self s1) = None /\
                   timers (loop s1) = ∅).
  { rewrite E. unfold matched_effect, rescheduled.
    rewrite (canceled_empty s Hr).
    destruct (_off_delay (self s)); repeat split. }
  destruct Hfacts as (Hst & Hl & Ht).
  repeat split; try assumption.
  - rewrite advance_to_idle; [reflexivity| |].
    + intros id due Hlk. rewrite Ht, lookup_empty in Hlk. discriminate.
    + unfold timer_inv. rewrite Hl. exact Ht.
  - rewrite advance_to_idle; [reflexivity| |].
    + intros id due Hlk. rewrite Ht, lookup_empty in Hlk. discriminate.
    + unfold timer_inv. rewrite Hl. exact Ht.
Qed.

Lemma off_message_cancels_auto_off_witness :
  reachable pending_system /\
  _payload_on (self pending_system) <>
    Some (effective_payload (self pending_system) "OFF") /\
  _payload_off (self pending_system) =
    Some (effective_payload (self pending_system) "OFF") /\
  timers (loop pending_system) = {[ 0%nat := 5000 ]} /\
  let s1 := exec (state_message_received "test-topic" "OFF" 0)
              pending_system in
  timers (loop s1) = ∅ /\
  self (exec (advance_to 9000) s1) = self s1.
Proof.
  assert (Hon : _payload_on (self pending_system) <>
                Some (effective_payload (self pending_system) "OFF"))
    by (vm_compute; discriminate).
  split; [exact pending_system_reachable|]. split; [exact Hon|].
  split; [reflexivity|]. split; [reflexivity|].
  destruct (off_message_cancels_auto_off pending_system "test-topic" "OFF"
              0 9000 pending_system_reachable Hon eq_refl)
    as (_ & _ & Ht & Hs & _).
  split; [exact Ht | exact Hs].
Defined.



(** X7.  In every reachable system the name, the state topic, the two
    payload tokens, the qos and the force-update flag are set: the [None]
    placeholders of the constructor are never observed, a payload is never
    compared with [None], and every record in the log is a warning that
    names an entity and a state topic. *)
Theorem reachable_is_configured :
  forall (s : System),
    reachable s ->
    (exists n tp pon poff q fu,
       _name (self s) = Some n /\ _state_topic (self s) = Some tp /\
       _payload_on (self s) = Some pon /\
       _payload_off (self s) = Some poff /\
       _qos (self s) = Some q /\ _force_update (self s) = Some fu) /\
    Forall names_entity_and_topic (log (loop s)).
Proof.
  intros s Hr. apply reachable_configured_inv in Hr.
  destruct Hr as ([n Hn] & [tp Ht] & [pon Hon] & [poff Hoff] & [q Hq]
                  & [fu Hf] & Hlog).
  split; [|exact Hlog].
  exists n, tp, pon, poff, q, fu. repeat split; assumption.
Qed.

Lemma logged_system_reachable :
  reachable (run_events
               [OnMessage "test-topic" "TOGGLE" 0; Configure other_config;
                OnMessage "door/state" "ajar" 1]
               plain_system).
Proof. apply run_events_reachable, reachable_boot. Qed.

Lemma reachable_is_configured_witness :
  reachable (run_events
               [OnMessage "test-topic" "TOGGLE" 0; Configure other_config;
                OnMessage "door/state" "ajar" 1]
               plain_system) /\
  Forall names_entity_and_topic
    (log (loop (run_events
                  [OnMessage "test-topic" "TOGGLE" 0;
                   Configure other_config;
                   OnMessage "door/state" "ajar" 1]
                  plain_system))).
Proof.
  split; [exact logged_system_reachable|].
  apply (reachable_is_configured _ logged_system_reachable).
Defined.

(** *** Discovery updates *)

Lemma discovery_update_effect s config :
  sub_inv s ->
  exec (discovery_update config) s =
  {| self := with_sub_state (Some (next_sub (loop s)))
               (configured config (self s));
     loop := with_ha_state_updates (S (ha_state_updates (loop s)))
               (with_subscriptions
                  {[ next_sub (loop s) :=
                       state_topic_spec (configured config (self s)) ]}
                  (S (next_sub (loop s))) (loop s)) |}.
Proof.
  intros Hinv.
  assert (Hinv' : sub_inv (exec (_setup_from_config config) s))
    by exact Hinv.
  assert (E : exec (discovery_update config) s =
              exec async_schedule_update_ha_state
                (exec _subscribe_topics
                   (exec (_setup_from_config config) s))).
  { unfold discovery_update, exec, mbind, M_bind.
    destruct (_setup_from_config config s) as [u s1]. cbn [snd].
    destruct (_subscribe_topics s1) as [u' s2]. reflexivity. }
  rewrite E, (subscribe_topics_effect _ Hinv'). reflexivity.
Qed.

(** X8.  A discovery update in a reachable system applies the new
    configuration, leaves exactly one live subscription, the one for the
    new state topic with the new qos, under a new handle, schedules one
    refresh, and keeps the state, a pending off-delay timer and the
    configuration object of the constructor as they were. *)
Theorem discovery_update_resubscribes :
  forall (s : System) (config : ConfigType),
    reachable s ->
    let s' := exec (discovery_update config) s in
    (exists h,
       _sub_state (self s') = Some h /\
       _sub_state (self s) <> Some h /\
       subscriptions (loop s') =
         {[ h := {[ "state_topic" :=
                      {| ts_topic := Some (CONF_STATE_TOPIC config);
                         ts_qos := Some (CONF_QOS config) |} ]} ]}) /\
    _payload_on (self s') = Some (CONF_PAYLOAD_ON config) /\
    _payload_off (self s') = Some (CONF_PAYLOAD_OFF config) /\
    _off_delay (self s') = CONF_OFF_DELAY config /\
    _state (self s') = _state (self s) /\
    _delay_listener (self s') = _delay_listener (self s) /\
    timers (loop s') = timers (loop s) /\
    _config (self s') = _config (self s) /\
    ha_state_updates (loop s') = S (ha_state_updates (loop s)).
Proof.
  intros s config Hr s'.
  assert (Hfresh : forall h, _sub_state (self s) = Some h ->
                             (h < next_sub (loop s))%nat).
  { clear s'. induction Hr as [c dh t0|s e Hr IH].
    - intros h Hh. discriminate.
    - assert (Hsub : sub_inv s) by apply reachable_sub_inv, Hr.
      assert (Hkeep : _sub_state (self (exec (handle e) s))
                        = _sub_state (self s) ->
                      (next_sub (loop s) <=
                         next_sub (loop (exec (handle e) s)))%nat ->
                      forall h,
                        _sub_state (self (exec (handle e) s)) = Some h ->
                        (h < next_sub (loop (exec (handle e) s)))%nat).
      { intros E1 E2 h Hh. rewrite E1 in Hh. apply IH in Hh. lia. }
      destruct e; cbn [handle] in *.
      + destruct (message_cases s topic payload qos)
          as [[_ E]|[(_ & _ & E)|(_ & _ & E)]]; rewrite E in *;
          try (apply Hkeep; [reflexivity | cbn; lia]);
          unfold matched_effect in *;
          destruct (rescheduled _ s) as [[? ?]|];
          apply Hkeep; first [reflexivity | cbn; lia].
      + destruct (fire_timer_cases id s) as [(due & _ & _ & E)|[_ E]];
          rewrite E in *; apply Hkeep; first [reflexivity | cbn; lia].
      + apply Hkeep; first [reflexivity | cbn; lia].
      + unfold async_added_to_hass in *.
        rewrite (subscribe_topics_effect s Hsub) in *.
        intros h Hh. cbn in *. inversion Hh. lia.
      + rewrite (unsubscribe_topics_effect s Hsub) in *.
        apply Hkeep; first [reflexivity | cbn; lia].
      + rewrite (discovery_update_effect s config0 Hsub) in *.
        intros h Hh. cbn in *. inversion Hh. lia.
      + apply Hkeep; first [reflexivity | cbn; lia]. }
  subst s'.
  rewrite (discovery_update_effect s config (reachable_sub_inv s Hr)).
  cbn. repeat split.
  exists (next_sub (loop s)). split; [reflexivity|]. split; [|reflexivity].
  intros Hh. apply Hfresh in Hh. lia.
Qed.

Lemma discovery_update_resubscribes_witness :
  reachable (run_events [Activate] pending_system) /\
  let s' := exec (discovery_update other_config)
              (run_events [Activate] pending_system) in
  size (subscriptions (loop s')) = 1%nat /\
  _state (self s') = Some true /\
  timers (loop s') = {[ 0%nat := 5000 ]}.
Proof.
  assert (Hr : reachable (run_events [Activate] pending_system))
    by apply run_events_reachable, pending_system_reachable.
  split; [exact Hr|].
  destruct (discovery_update_resubscribes _ other_config Hr)
    as ((h & _ & _ & Hs) & _ & _ & _ & Hst & _ & Ht & _).
  split; [rewrite Hs; apply map_size_singleton|].
  split; [rewrite Hst; reflexivity | rewrite Ht; reflexivity].
Defined.

(** *** The unknown state *)

Lemma unknown_step e s :
  timer_inv s -> _state (self s) = None -> ~ matching_message s e ->
  _state (self (exec (handle e) s)) = None.
Proof.
  intros Hinv Hst Hm. destruct e; cbn [handle]; try exact Hst.
  - destruct (message_cases s topic payload qos)
      as [[Hon _]|[(_ & Hoff & _)|(_ & _ & ->)]].
    + exfalso. apply Hm. left. exact Hon.
    + exfalso. apply Hm. right. exact Hoff.
    + exact Hst.
  - destruct (fire_timer_cases id s) as [(due & Hl & _ & _)|[_ ->]];
      [|exact Hst].
    exfalso. unfold timer_inv in Hinv.
    destruct (_delay_listener (self s)).
    + destruct Hinv as (_ & _ & Hon). congruence.
    + rewrite Hinv, lookup_empty in Hl. discriminate.
Qed.

Lemma unknown_run es s :
  timer_inv s -> _state (self s) = None -> no_match s es ->
  _state (self (run_events es s)) = None.
Proof.
  revert s. induction es as [|e es IH]; intros s Hinv Hst Hn.
  - exact Hst.
  - destruct Hn as [Hm Hn]. cbn. apply IH.
    + apply handle_timer_inv, Hinv.
    + apply unknown_step; assumption.
    + exact Hn.
Qed.

(** X9.  A new entity reports an unknown state, and keeps reporting it
    through every run of events in which no message matches a token:
    unmatched messages, timer events, configuring, subscribing, removing,
    discovery updates and the passing of time never make [is_on] true or
    false. *)
Theorem unknown_until_first_match :
  forall (config : ConfigType) (discovery_hash : option string) (t0 : Z)
         (es : list Event),
    no_match (boot config discovery_hash t0) es ->
    is_on (self (run_events es (boot config discovery_hash t0))) = None.
Proof.
  intros config dh t0 es Hn. unfold is_on.
  apply unknown_run; [|reflexivity|exact Hn].
  apply reachable_timer_inv, reachable_boot.
Qed.

Lemma unknown_until_first_match_witness :
  no_match delay_system
    [Activate; OnMessage "test-topic" "on" 0; TimePasses 9000;
     OnOffDelayExpired 0%nat; DiscoveryUpdate other_config;
     OnMessage "door/state" "ON" 0; Deactivate] /\
  is_on (self (run_events
                 [Activate; OnMessage "test-topic" "on" 0; TimePasses 9000;
                  OnOffDelayExpired 0%nat; DiscoveryUpdate other_config;
                  OnMessage "door/state" "ON" 0; Deactivate]
                 delay_system)) = None.
Proof.
  assert (H : no_match delay_system
                [Activate; OnMessage "test-topic" "on" 0; TimePasses 9000;
                 OnOffDelayExpired 0%nat; DiscoveryUpdate other_config;
                 OnMessage "door/state" "ON" 0; Deactivate]).
  { cbn [no_match]. repeat split; intros Hx; vm_compute in Hx;
      first [contradiction | destruct Hx as [Hx|Hx]; discriminate]. }
  split; [exact H|].
  apply (unknown_until_first_match _ None 0 _ H).
Defined.

(** *** Platform setup *)

(** X10.  The platform setup adds exactly one entity.  Its state is
    unknown and nothing is subscribed or pending; its tokens, topic and
    off delay are those of the configuration; and its value template is
    the configuration's, bound to the host, so that the payload compared
    with the tokens is the template's rendering of the raw payload, or
    the raw payload when no template is configured. *)
Theorem async_setup_entity_adds_one :
  forall (config : ConfigType) (discovery_hash : option string),
    exists e,
      _async_setup_entity HomeAssistant config discovery_hash = [e] /\
      is_on e = None /\ _sub_state e = None /\ _delay_listener e = None /\
      name e = Some (CONF_NAME config) /\
      _state_topic e = Some (CONF_STATE_TOPIC config) /\
      _payload_on e = Some (CONF_PAYLOAD_ON config) /\
      _payload_off e = Some (CONF_PAYLOAD_OFF config) /\
      _off_delay e = CONF_OFF_DELAY config /\
      (forall t, _template e = Some t -> tpl_hass t = Some HomeAssistant) /\
      (forall payload,
         effective_payload e payload =
         match CONF_VALUE_TEMPLATE config with
         | Some t => async_render_with_possible_json_value t payload
         | None => payload
         end).
Proof.
  intros config dh. eexists. split; [reflexivity|].
  unfold effective_payload. cbn.
  repeat split; destruct (CONF_VALUE_TEMPLATE config) as [t|]; cbn;
    try reflexivity; intros t' Ht; inversion Ht; reflexivity.
Qed.

(** *** What is logged *)

Lemma handle_log_length e s :
  length (log (loop (exec (handle e) s))) =
  (length (log (loop s)) + (if unmatched_b s e then 1 else 0))%nat.
Proof.
  destruct e; cbn [handle unmatched_b];
    try (rewrite Nat.add_0_r; reflexivity).
  - destruct (message_cases s topic payload qos)
      as [[Hon ->]|[(Hon & Hoff & ->)|(Hon & Hoff & ->)]].
    + apply py_eq_true in Hon. rewrite Hon. cbn [negb andb].
      rewrite Nat.add_0_r. unfold matched_effect.
      destruct (rescheduled true s) as [[? ?]|]; reflexivity.
    + apply py_eq_true in Hoff. rewrite Hoff, andb_false_r.
      rewrite Nat.add_0_r. unfold matched_effect.
      destruct (rescheduled false s) as [[? ?]|]; reflexivity.
    + apply py_eq_false in Hon, Hoff. rewrite Hon, Hoff. cbn.
      apply length_app.
  - rewrite Nat.add_0_r.
    destruct (fire_timer_cases id s) as [(due & _ & _ & ->)|[_ ->]];
      reflexivity.
Qed.

(** X11.  Over any run of events the log grows by exactly one record per
    message that matches neither token: matching messages, timer expiry,
    configuring, subscribing, removing, discovery updates and the passing
    of time log nothing. *)
Theorem log_counts_unmatched_messages :
  forall (s : System) (es : list Event),
    length (log (loop (run_events es s))) =
    (length (log (loop s)) + count_unmatched s es)%nat.
Proof.
  intros s es. revert s. induction es as [|e es IH]; intros s.
  - cbn. lia.
  - change (run_events (e :: es) s)
      with (run_events es (exec (handle e) s)).
    cbn [count_unmatched].
    rewrite (IH (exec (handle e) s)), handle_log_length. lia.
Qed.
